(** * PersonRegistry: the record store behind [api.py]

    A shallow embedding of the five request handlers of [api.py]
    ([crear_persona], [obtener_equipo], [obtener_persona],
    [actualizar_persona], [eliminar_persona]) over an explicit model of
    the single SQLite table [personas] they read and write.

    Python integers are unbounded and are modelled as [Z]; SQLite's
    INTEGER is a signed 64-bit value, and the [sqlite3] module raises
    [OverflowError] when a bound parameter does not fit.  A Python [str]
    is a sequence of code points, lone surrogates included, and is
    modelled as [str]; the [sqlite3] module encodes a bound [str] as
    UTF-8 and raises [UnicodeEncodeError] when it cannot.  Failures of
    the storage itself (a full disk, a locked file, a value beyond
    SQLite's size limit) are outside the model, as the specification
    leaves them.  Each handler runs inside one
    [get_db_connection] block: statements act on the connection's view
    of the table, [commit] makes that view durable, and leaving the block
    closes the connection, which drops whatever was not committed. *)

From Stdlib Require Import ZArith NArith List Ascii String Bool Lia.
Import ListNotations.

Local Open Scope Z_scope.

(** ** Python text *)

(** A [str]: its code points. *)
Definition str : Type := list N.

(** The [str] of an ASCII literal. *)
Definition text (s : string) : str :=
  map N_of_ascii (list_ascii_of_string s).

(** A code point UTF-8 can encode: any but the surrogates D800-DFFF. *)
Definition scalar_value (c : N) : bool :=
  ((c <? 55296) || ((57343 <? c) && (c <=? 1114111)))%N.

(** [s.encode("utf-8")] succeeds. *)
Definition encodable (s : str) : bool := forallb scalar_value s.

(** ** Pydantic models (api.py, lines 9-23) *)

Record Persona : Type := mkPersona
  { Persona_id : option Z;
    Persona_nombre : str;
    Persona_edad : Z;
    Persona_puesto : str }.

Record PersonaCreate : Type := mkPersonaCreate
  { PersonaCreate_nombre : str;
    PersonaCreate_edad : Z;
    PersonaCreate_puesto : str }.

(** A field of [PersonaUpdate] is [Optional[...] = None]: the request
    body may leave it out ([Unset]), or give it, either as [null]
    ([Given None]) or as a value ([Given (Some v)]).
    [dict(exclude_unset=True)] tells the first case from the other two. *)
Inductive field (A : Type) : Type :=
| Unset : field A
| Given : option A -> field A.
Arguments Unset {A}.
Arguments Given {A} _.

Record PersonaUpdate : Type := mkPersonaUpdate
  { PersonaUpdate_nombre : field str;
    PersonaUpdate_edad : field Z;
    PersonaUpdate_puesto : field str }.

(** ** The table [personas] (api.py, lines 38-45)

    [id INTEGER PRIMARY KEY AUTOINCREMENT], and three NOT NULL columns.
    The rows are kept in rowid order, the order in which a
    [SELECT] without [ORDER BY] scans the table.  [sqlite_sequence] is the
    counter AUTOINCREMENT keeps: the largest rowid the table ever held. *)

Record Row : Type := mkRow
  { Row_id : Z;
    Row_nombre : str;
    Row_edad : Z;
    Row_puesto : str }.

Record Database : Type := mkDatabase
  { personas : list Row;
    sqlite_sequence : Z }.

(** [CREATE TABLE IF NOT EXISTS]: a file without the table gets an empty
    one, a file that has it is left as it is. *)
Definition init_database (file : option Database) : Database :=
  match file with
  | None => {| personas := []; sqlite_sequence := 0 |}
  | Some db => db
  end.

(** ** Exceptions a handler can end with *)

Inductive exception : Type :=
| HTTPException (status_code : Z) (detail : string)
| OverflowError      (* Python int too large to convert to SQLite INTEGER *)
| IntegrityError     (* NOT NULL constraint failed *)
| OperationalError   (* database or disk is full *)
| TypeError          (* 'NoneType' object is not subscriptable *)
| UnicodeEncodeError. (* 'utf-8' codec can't encode: surrogates not allowed *)

Definition NotFound : exception :=
  HTTPException 404 "Persona no encontrada en el equipo".

(** ** State and exception monad *)

Definition M (S A : Type) : Type := S -> (exception + A) * S.

Definition ret {S A : Type} (a : A) : M S A := fun s => (inr a, s).

Definition raise {S A : Type} (e : exception) : M S A := fun s => (inl e, s).

Definition bind {S A B : Type} (m : M S A) (k : A -> M S B) : M S B :=
  fun s =>
    match m s with
    | (inl e, s') => (inl e, s')
    | (inr a, s') => k a s'
    end.

Notation "x <- m ;; k" := (bind m (fun x => k))
  (at level 61, m at next level, right associativity).
Notation "m ;;; k" := (bind m (fun _ => k))
  (at level 61, right associativity).

(** ** Connections (api.py, lines 50-58) *)

Record Connection : Type := mkConnection
  { durable : Database;        (* what the file holds *)
    view : Database;           (* what this connection sees *)
    lastrowid : option Z }.    (* cursor.lastrowid *)

(** [with get_db_connection() as conn: body]: the body runs on a fresh
    connection; [conn.close()] in the [finally] keeps only what was
    committed, whether the body returned or raised. *)
Definition get_db_connection {A : Type} (body : M Connection A) : M Database A :=
  fun db =>
    let '(r, conn) := body {| durable := db; view := db; lastrowid := None |} in
    (r, durable conn).

Definition commit : M Connection unit :=
  fun conn =>
    (inr tt, {| durable := view conn; view := view conn; lastrowid := lastrowid conn |}).

(** ** Parameter binding *)

Definition INT64_MIN : Z := - 2 ^ 63.
Definition INT64_MAX : Z := 2 ^ 63 - 1.

Definition fits_int64 (z : Z) : bool := (INT64_MIN <=? z) && (z <=? INT64_MAX).

(** Binding a Python int to a [?] of a statement: [sqlite3] converts it
    to a 64-bit value and raises [OverflowError] when it does not fit,
    and the statement is not run. *)
Definition bind_int {S : Type} (z : Z) : M S unit :=
  if fits_int64 z then ret tt else raise OverflowError.

(** Binding a Python [str] to a [?]: [sqlite3] encodes it as UTF-8 and
    raises [UnicodeEncodeError] when it holds a lone surrogate; the
    statement is not run. *)
Definition bind_text {S : Type} (s : str) : M S unit :=
  if encodable s then ret tt else raise UnicodeEncodeError.

(** ** The SQL statements the handlers execute *)

Definition find_row (persona_id : Z) (rows : list Row) : option Row :=
  find (fun r => Row_id r =? persona_id) rows.

(** [SELECT * FROM personas WHERE id = ?] followed by [fetchone()]. *)
Definition select_by_id (persona_id : Z) : M Connection (option Row) :=
  bind_int persona_id ;;;
  fun conn => (inr (find_row persona_id (personas (view conn))), conn).

(** [LIMIT l OFFSET o]: a negative offset counts as zero, a negative limit
    as no limit. *)
Definition limit_offset (limit skip : Z) (rows : list Row) : list Row :=
  let rest := skipn (Z.to_nat skip) rows in
  if limit <? 0 then rest else firstn (Z.to_nat limit) rest.

(** [SELECT * FROM personas LIMIT ? OFFSET ?] followed by [fetchall()]. *)
Definition select_limit_offset (limit skip : Z) : M Connection (list Row) :=
  bind_int limit ;;;
  bind_int skip ;;;
  fun conn => (inr (limit_offset limit skip (personas (view conn))), conn).

Definition max_rowid (rows : list Row) : Z :=
  fold_right (fun r m => Z.max (Row_id r) m) 0 rows.

(** The largest rowid the table ever held, as AUTOINCREMENT computes it:
    the counter or the largest rowid present, whichever is larger. *)
Definition largest_rowid (db : Database) : Z :=
  Z.max (sqlite_sequence db) (max_rowid (personas db)).

(** AUTOINCREMENT has run out of rowids. *)
Definition exhausted (db : Database) : bool := INT64_MAX <=? largest_rowid db.

(** [INSERT INTO personas (nombre, edad, puesto) VALUES (?, ?, ?)].
    The three parameters are bound in their order.  AUTOINCREMENT picks
    one more than the largest rowid the table ever held, and refuses the
    insert once that is the largest 64-bit value. *)
Definition insert_persona (nombre : str) (edad : Z) (puesto : str)
  : M Connection unit :=
  bind_text nombre ;;;
  bind_int edad ;;;
  bind_text puesto ;;;
  fun conn =>
    let db := view conn in
    if exhausted db then (inl OperationalError, conn)
    else
      let rowid := largest_rowid db + 1 in
      (inr tt,
       {| durable := durable conn;
          view := {| personas := personas db ++ [mkRow rowid nombre edad puesto];
                     sqlite_sequence := rowid |};
          lastrowid := Some rowid |}).

(** One [column = ?] of a SET clause with the value bound to it. *)
Inductive assignment : Type :=
| set_nombre (v : option str)
| set_edad (v : option Z)
| set_puesto (v : option str).

(** Binding the value of one SET clause; [None] binds as NULL. *)
Definition bind_value {S : Type} (a : assignment) : M S unit :=
  match a with
  | set_nombre (Some s) | set_puesto (Some s) => bind_text s
  | set_edad (Some z) => bind_int z
  | _ => ret tt
  end.

Fixpoint bind_values {S : Type} (l : list assignment) : M S unit :=
  match l with
  | [] => ret tt
  | a :: l' => bind_value a ;;; bind_values l'
  end.

(** Storing one column; [None] is the NOT NULL constraint failing. *)
Definition set_column (r : Row) (a : assignment) : option Row :=
  match a with
  | set_nombre (Some s) => Some (mkRow (Row_id r) s (Row_edad r) (Row_puesto r))
  | set_edad (Some z) => Some (mkRow (Row_id r) (Row_nombre r) z (Row_puesto r))
  | set_puesto (Some s) => Some (mkRow (Row_id r) (Row_nombre r) (Row_edad r) s)
  | _ => None
  end.

Fixpoint set_columns (r : Row) (l : list assignment) : option Row :=
  match l with
  | [] => Some r
  | a :: l' =>
      match set_column r a with
      | Some r' => set_columns r' l'
      | None => None
      end
  end.

Fixpoint update_rows (l : list assignment) (persona_id : Z) (rows : list Row)
  : option (list Row) :=
  match rows with
  | [] => Some []
  | r :: rows' =>
      if Row_id r =? persona_id then
        match set_columns r l, update_rows l persona_id rows' with
        | Some r', Some rest => Some (r' :: rest)
        | _, _ => None
        end
      else option_map (cons r) (update_rows l persona_id rows')
  end.

(** [UPDATE personas SET ... WHERE id = ?]. *)
Definition update_persona (l : list assignment) (persona_id : Z) : M Connection unit :=
  bind_values l ;;;
  bind_int persona_id ;;;
  fun conn =>
    let db := view conn in
    match update_rows l persona_id (personas db) with
    | None => (inl IntegrityError, conn)
    | Some rows =>
        (inr tt,
         {| durable := durable conn;
            view := {| personas := rows; sqlite_sequence := sqlite_sequence db |};
            lastrowid := lastrowid conn |})
    end.

(** [DELETE FROM personas WHERE id = ?]. *)
Definition delete_persona (persona_id : Z) : M Connection unit :=
  bind_int persona_id ;;;
  fun conn =>
    let db := view conn in
    (inr tt,
     {| durable := durable conn;
        view := {| personas := filter (fun r => negb (Row_id r =? persona_id)) (personas db);
                   sqlite_sequence := sqlite_sequence db |};
        lastrowid := lastrowid conn |}).

Definition cursor_lastrowid : M Connection (option Z) :=
  fun conn => (inr (lastrowid conn), conn).

(** ** The handlers *)

(** [Persona(id=row["id"], nombre=row["nombre"], ...)]. *)
Definition Persona_of_row (row : Row) : Persona :=
  {| Persona_id := Some (Row_id row);
     Persona_nombre := Row_nombre row;
     Persona_edad := Row_edad row;
     Persona_puesto := Row_puesto row |}.

(** POST /personas/ (api.py, lines 75-92). *)
Definition crear_persona (persona : PersonaCreate) : M Database Persona :=
  get_db_connection
    (insert_persona (PersonaCreate_nombre persona) (PersonaCreate_edad persona)
                    (PersonaCreate_puesto persona) ;;;
     commit ;;;
     persona_id <- cursor_lastrowid ;;
     ret {| Persona_id := persona_id;
            Persona_nombre := PersonaCreate_nombre persona;
            Persona_edad := PersonaCreate_edad persona;
            Persona_puesto := PersonaCreate_puesto persona |}).

(** GET /personas/ (api.py, lines 94-105). *)
Definition obtener_equipo (skip limit : Z) : M Database (list Persona) :=
  get_db_connection
    (rows <- select_limit_offset limit skip ;;
     ret (map Persona_of_row rows)).

(** GET /personas/{persona_id} (api.py, lines 107-118). *)
Definition obtener_persona (persona_id : Z) : M Database Persona :=
  get_db_connection
    (row <- select_by_id persona_id ;;
     match row with
     | Some row => ret (Persona_of_row row)
     | None => raise NotFound
     end).

(** [persona_update.dict(exclude_unset=True)], as the SET clauses and
    values the loop of lines 138-140 builds from it. *)
Definition update_data (persona_update : PersonaUpdate) : list assignment :=
  match PersonaUpdate_nombre persona_update with
  | Unset => []
  | Given v => [set_nombre v]
  end ++
  match PersonaUpdate_edad persona_update with
  | Unset => []
  | Given v => [set_edad v]
  end ++
  match PersonaUpdate_puesto persona_update with
  | Unset => []
  | Given v => [set_puesto v]
  end.

(** PUT /personas/{persona_id} (api.py, lines 120-156). *)
Definition actualizar_persona (persona_id : Z) (persona_update : PersonaUpdate)
  : M Database Persona :=
  get_db_connection
    (row <- select_by_id persona_id ;;
     match row with
     | None => raise NotFound
     | Some row =>
         match update_data persona_update with
         | [] => ret (Persona_of_row row)
         | a :: l =>
             update_persona (a :: l) persona_id ;;;
             commit ;;;
             updated_row <- select_by_id persona_id ;;
             match updated_row with
             | Some updated_row => ret (Persona_of_row updated_row)
             | None => raise TypeError
             end
         end
     end).

(** The body of the DELETE response. *)
Record Eliminada : Type := mkEliminada
  { message : str;
    persona_eliminada : Row }.

(** DELETE /personas/{persona_id} (api.py, lines 158-181). *)
Definition eliminar_persona (persona_id : Z) : M Database Eliminada :=
  get_db_connection
    (row <- select_by_id persona_id ;;
     match row with
     | None => raise NotFound
     | Some row =>
         delete_persona persona_id ;;;
         commit ;;;
         ret {| message := text "Persona '" ++ Row_nombre row
                           ++ text "' eliminada del equipo";
                persona_eliminada := row |}
     end).

(** ** Requests, and the store a sequence of them leaves *)

Inductive request : Type :=
| Crear (persona : PersonaCreate)
| Listar (skip limit : Z)
| Obtener (persona_id : Z)
| Actualizar (persona_id : Z) (persona_update : PersonaUpdate)
| Eliminar (persona_id : Z).

Definition handle (db : Database) (rq : request) : Database :=
  match rq with
  | Crear persona => snd (crear_persona persona db)
  | Listar skip limit => snd (obtener_equipo skip limit db)
  | Obtener persona_id => snd (obtener_persona persona_id db)
  | Actualizar persona_id persona_update =>
      snd (actualizar_persona persona_id persona_update db)
  | Eliminar persona_id => snd (eliminar_persona persona_id db)
  end.

Definition serve (rqs : list request) (db : Database) : Database :=
  fold_left handle rqs db.


(** ** Well-formed stores

    [Database] has more inhabitants than SQLite has tables: a table of
    SQLite cannot hold two rows with one rowid, nor a rowid that is not a
    64-bit value.  [wf_store] is what the primary key and AUTOINCREMENT
    maintain: rowids are positive and strictly increasing along the
    table, none exceeds [sqlite_sequence], and that counter is a 64-bit
    value.  The fresh table is well formed and every handler keeps a
    well-formed table well formed ([serve_wf] below), so these are the
    stores the service can be in. *)

Fixpoint increasing_from (lo : Z) (ids : list Z) : bool :=
  match ids with
  | [] => true
  | i :: ids' => (lo <? i) && increasing_from i ids'
  end.

Definition ids (db : Database) : list Z := map Row_id (personas db).

Definition wf_store (db : Database) : bool :=
  increasing_from 0 (ids db)
  && forallb (fun i => i <=? sqlite_sequence db) (ids db)
  && (0 <=? sqlite_sequence db)
  && (sqlite_sequence db <=? INT64_MAX).

(** The exception binding the values of the SET clauses ends in, if any:
    that of the first value, in the order of the clauses, that does not
    bind. *)
Definition value_error (a : assignment) : option exception :=
  match a with
  | set_nombre (Some s) | set_puesto (Some s) =>
      if encodable s then None else Some UnicodeEncodeError
  | set_edad (Some z) =>
      if fits_int64 z then None else Some OverflowError
  | _ => None
  end.

Fixpoint binding_error (l : list assignment) : option exception :=
  match l with
  | [] => None
  | a :: l' =>
      match value_error a with
      | Some e => Some e
      | None => binding_error l'
      end
  end.

(** The three parameters of the INSERT bind. *)
Definition bindable (persona : PersonaCreate) : bool :=
  encodable (PersonaCreate_nombre persona)
  && fits_int64 (PersonaCreate_edad persona)
  && encodable (PersonaCreate_puesto persona).

(** ** The update as the specification words it

    Merge-patch: a supplied field takes the new value, a field that is
    not supplied keeps the one it had, the id stays. *)
Definition merge_field {A : Type} (old : A) (f : field A) : A :=
  match f with
  | Given (Some v) => v
  | _ => old
  end.

Definition merge_patch (row : Row) (u : PersonaUpdate) : Row :=
  {| Row_id := Row_id row;
     Row_nombre := merge_field (Row_nombre row) (PersonaUpdate_nombre u);
     Row_edad := merge_field (Row_edad row) (PersonaUpdate_edad u);
     Row_puesto := merge_field (Row_puesto row) (PersonaUpdate_puesto u) |}.

(** No supplied field is [null], a supplied name or role can be encoded
    as UTF-8, and a supplied age is a 64-bit value. *)
Definition storable {A : Type} (fit : A -> bool) (f : field A) : bool :=
  match f with
  | Unset => true
  | Given None => false
  | Given (Some v) => fit v
  end.

Definition storable_update (u : PersonaUpdate) : bool :=
  storable encodable (PersonaUpdate_nombre u)
  && storable fits_int64 (PersonaUpdate_edad u)
  && storable encodable (PersonaUpdate_puesto u).



(** Every stored age is a 64-bit value. *)
Definition ages_fit (rows : list Row) : Prop :=
  forall r, In r rows -> fits_int64 (Row_edad r) = true.

(** ** Sample data *)

Definition ana : PersonaCreate := mkPersonaCreate (text "Ana") 30 (text "Engineer").
Definition luis : PersonaCreate := mkPersonaCreate (text "Luis") 41 (text "Analyst").


Definition db0 : Database := init_database None.
Definition db1 : Database := snd (crear_persona ana db0).
Definition db2 : Database := snd (crear_persona luis db1).

Definition only_edad (z : Z) : PersonaUpdate :=
  mkPersonaUpdate Unset (Given (Some z)) Unset.

(** * Properties *)

(** ** What each handler computes, in closed form *)

Ltac run_handler :=
  unfold get_db_connection, select_by_id, select_limit_offset, insert_persona,
    update_persona, delete_persona, cursor_lastrowid, commit, bind, bind_int,
    bind_text, ret, raise; simpl.

Lemma bind_values_run (S : Type) (l : list assignment) (s : S) :
  bind_values l s
  = (match binding_error l with Some e => inl e | None => inr tt end, s).
Proof.
  induction l as [|a l IH]; [reflexivity|].
  simpl. unfold bind.
  assert (Ha : bind_value a s
               = (match value_error a with Some e => inl e | None => inr tt end, s)).
  { destruct a as [[v|]|[z|]|[v|]]; try reflexivity; simpl;
      unfold bind_text, bind_int, ret, raise;
      [destruct (encodable v) | destruct (fits_int64 z) | destruct (encodable v)];
      reflexivity. }
  rewrite Ha. destruct (value_error a); [reflexivity | exact IH].
Qed.

Lemma obtener_persona_run (persona_id : Z) (db : Database) :
  obtener_persona persona_id db =
  (if fits_int64 persona_id then
     match find_row persona_id (personas db) with
     | Some row => inr (Persona_of_row row)
     | None => inl NotFound
     end
   else inl OverflowError, db).
Proof.
  unfold obtener_persona. run_handler.
  destruct (fits_int64 persona_id); simpl; [|reflexivity].
  now destruct (find_row persona_id (personas db)).
Qed.

Lemma obtener_equipo_run (skip limit : Z) (db : Database) :
  obtener_equipo skip limit db =
  (if fits_int64 limit && fits_int64 skip
   then inr (map Persona_of_row (limit_offset limit skip (personas db)))
   else inl OverflowError, db).
Proof.
  unfold obtener_equipo. run_handler.
  destruct (fits_int64 limit); simpl; [|reflexivity].
  now destruct (fits_int64 skip).
Qed.

Lemma crear_persona_run (persona : PersonaCreate) (db : Database) :
  crear_persona persona db =
  if encodable (PersonaCreate_nombre persona) then
    if fits_int64 (PersonaCreate_edad persona) then
      if encodable (PersonaCreate_puesto persona) then
        if exhausted db then (inl OperationalError, db)
        else
          let rowid := largest_rowid db + 1 in
          (inr {| Persona_id := Some rowid;
                  Persona_nombre := PersonaCreate_nombre persona;
                  Persona_edad := PersonaCreate_edad persona;
                  Persona_puesto := PersonaCreate_puesto persona |},
           {| personas := personas db ++
                          [mkRow rowid (PersonaCreate_nombre persona)
                                 (PersonaCreate_edad persona)
                                 (PersonaCreate_puesto persona)];
              sqlite_sequence := rowid |})
      else (inl UnicodeEncodeError, db)
    else (inl OverflowError, db)
  else (inl UnicodeEncodeError, db).
Proof.
  unfold crear_persona. run_handler.
  destruct (encodable (PersonaCreate_nombre persona)); simpl; [|reflexivity].
  destruct (fits_int64 (PersonaCreate_edad persona)); simpl; [|reflexivity].
  destruct (encodable (PersonaCreate_puesto persona)); simpl; [|reflexivity].
  now destruct (exhausted db).
Qed.


(** What a create that returned a record was given and did. *)
Lemma crear_persona_success (persona : PersonaCreate) (db db' : Database)
  (p : Persona) :
  crear_persona persona db = (inr p, db') ->
  bindable persona = true /\
  exhausted db = false /\
  p = {| Persona_id := Some (largest_rowid db + 1);
         Persona_nombre := PersonaCreate_nombre persona;
         Persona_edad := PersonaCreate_edad persona;
         Persona_puesto := PersonaCreate_puesto persona |} /\
  db' = {| personas := personas db ++
                       [mkRow (largest_rowid db + 1) (PersonaCreate_nombre persona)
                              (PersonaCreate_edad persona)
                              (PersonaCreate_puesto persona)];
           sqlite_sequence := largest_rowid db + 1 |}.
Proof.
  rewrite crear_persona_run. unfold bindable.
  destruct (encodable (PersonaCreate_nombre persona)); [|discriminate].
  destruct (fits_int64 (PersonaCreate_edad persona)); [|discriminate].
  destruct (encodable (PersonaCreate_puesto persona)); [|discriminate].
  destruct (exhausted db); [discriminate|].
  cbv zeta. intros [= <- <-]. repeat split.
Qed.

Lemma eliminar_persona_run (persona_id : Z) (db : Database) :
  eliminar_persona persona_id db =
  if fits_int64 persona_id then
    match find_row persona_id (personas db) with
    | None => (inl NotFound, db)
    | Some row =>
        (inr {| message := text "Persona '" ++ Row_nombre row
                           ++ text "' eliminada del equipo";
                persona_eliminada := row |},
         {| personas := filter (fun r => negb (Row_id r =? persona_id)) (personas db);
            sqlite_sequence := sqlite_sequence db |})
    end
  else (inl OverflowError, db).
Proof.
  unfold eliminar_persona. run_handler.
  destruct (fits_int64 persona_id) eqn:Hfit; simpl; [|reflexivity].
  destruct (find_row persona_id (personas db)); reflexivity.
Qed.

Lemma actualizar_persona_run (persona_id : Z) (u : PersonaUpdate) (db : Database) :
  actualizar_persona persona_id u db =
  if fits_int64 persona_id then
    match find_row persona_id (personas db) with
    | None => (inl NotFound, db)
    | Some row =>
        match update_data u with
        | [] => (inr (Persona_of_row row), db)
        | a :: l =>
            match binding_error (a :: l) with
            | Some e => (inl e, db)
            | None =>
                match update_rows (a :: l) persona_id (personas db) with
                | None => (inl IntegrityError, db)
                | Some rows =>
                    (match find_row persona_id rows with
                     | Some updated_row => inr (Persona_of_row updated_row)
                     | None => inl TypeError
                     end,
                     {| personas := rows; sqlite_sequence := sqlite_sequence db |})
                end
            end
        end
    end
  else (inl OverflowError, db).
Proof.
  unfold actualizar_persona, get_db_connection, select_by_id, bind at 1 2.
  unfold bind_int at 1.
  destruct (fits_int64 persona_id) eqn:Hfit; [|reflexivity].
  cbn [ret raise view personas].
  destruct (find_row persona_id (personas db)) as [row|]; [|reflexivity].
  destruct (update_data u) as [|a l]; [reflexivity|].
  unfold update_persona, bind at 1 2.
  rewrite bind_values_run.
  destruct (binding_error (a :: l)); [reflexivity|].
  unfold bind, bind_int. rewrite Hfit. cbn [ret view personas].
  destruct (update_rows (a :: l) persona_id (personas db)) as [rows|]; [|reflexivity].
  unfold commit. cbn [ret raise view personas durable].
  now destruct (find_row persona_id rows).
Qed.

(** ** Looking rows up *)

Lemma find_row_some (persona_id : Z) (rows : list Row) (row : Row) :
  find_row persona_id rows = Some row -> In row rows /\ Row_id row = persona_id.
Proof.
  unfold find_row. intros H. apply find_some in H.
  destruct H as [Hin Heq]. split; [exact Hin | now apply Z.eqb_eq].
Qed.

Lemma find_row_app (persona_id : Z) (rows rows' : list Row) :
  find_row persona_id (rows ++ rows') =
  match find_row persona_id rows with
  | Some row => Some row
  | None => find_row persona_id rows'
  end.
Proof.
  unfold find_row. induction rows as [|r rows IH]; [reflexivity|].
  simpl. now destruct (Row_id r =? persona_id).
Qed.

Lemma max_rowid_nonneg (rows : list Row) : 0 <= max_rowid rows.
Proof. induction rows as [|r rows IH]; simpl; lia. Qed.

Lemma max_rowid_bound (rows : list Row) (r : Row) :
  In r rows -> Row_id r <= max_rowid rows.
Proof.
  induction rows as [|r' rows IH]; simpl; [tauto|].
  intros [->|Hin]; [lia | specialize (IH Hin); lia].
Qed.

Lemma find_row_above_max (persona_id : Z) (rows : list Row) :
  max_rowid rows < persona_id -> find_row persona_id rows = None.
Proof.
  intros Hlt. destruct (find_row persona_id rows) as [row|] eqn:Hf; [|reflexivity].
  apply find_row_some in Hf. destruct Hf as [Hin Heq].
  apply max_rowid_bound in Hin. lia.
Qed.

Lemma fits_int64_spec (z : Z) :
  fits_int64 z = true <-> INT64_MIN <= z <= INT64_MAX.
Proof. unfold fits_int64. rewrite andb_true_iff, !Z.leb_le. tauto. Qed.

Lemma exhausted_false (db : Database) :
  exhausted db = false <->
  largest_rowid db < INT64_MAX.
Proof. unfold exhausted. rewrite Z.leb_gt. tauto. Qed.

Lemma largest_rowid_nonneg (db : Database) : 0 <= largest_rowid db.
Proof. unfold largest_rowid. pose proof (max_rowid_nonneg (personas db)). lia. Qed.

Lemma largest_rowid_bound (db : Database) (r : Row) :
  In r (personas db) -> Row_id r <= largest_rowid db.
Proof. intros Hin. apply max_rowid_bound in Hin. unfold largest_rowid. lia. Qed.

Lemma fresh_rowid_fits (db : Database) :
  exhausted db = false ->
  fits_int64 (largest_rowid db + 1) = true.
Proof.
  intros H. apply exhausted_false in H. apply fits_int64_spec.
  pose proof (largest_rowid_nonneg db).
  unfold INT64_MIN, INT64_MAX in *. lia.
Qed.

(** ** Claims *)

(** C1, as stated, fails: the id 2^63 has no row, yet get, update and
    delete on it end in [OverflowError], which is not [NotFound]. *)
Lemma oversized_id_overflows :
  find_row (2 ^ 63) (personas db1) = None /\
  fst (obtener_persona (2 ^ 63) db1) = inl OverflowError /\
  fst (actualizar_persona (2 ^ 63) (only_edad 31) db1) = inl OverflowError /\
  fst (eliminar_persona (2 ^ 63) db1) = inl OverflowError /\
  OverflowError <> NotFound.
Proof. repeat split; try reflexivity. discriminate. Qed.

(** C1 (amended): for every id that is a signed 64-bit integer and has no
    row in the table, each of get, update (with any fields) and delete
    fails with NotFound (HTTP 404), and with no other error. *)
Theorem missing_id_is_not_found
  (db : Database) (persona_id : Z) (u : PersonaUpdate) :
  fits_int64 persona_id = true ->
  find_row persona_id (personas db) = None ->
  fst (obtener_persona persona_id db) = inl NotFound /\
  fst (actualizar_persona persona_id u db) = inl NotFound /\
  fst (eliminar_persona persona_id db) = inl NotFound /\
  NotFound = HTTPException 404 "Persona no encontrada en el equipo".
Proof.
  intros Hfit Hnone.
  rewrite obtener_persona_run, actualizar_persona_run, eliminar_persona_run.
  rewrite Hfit, Hnone. repeat split.
Qed.

Lemma missing_id_is_not_found_witness :
  fits_int64 7 = true /\
  find_row 7 (personas db1) = None /\
  fst (obtener_persona 7 db1) = inl NotFound /\
  fst (actualizar_persona 7 (only_edad 31) db1) = inl NotFound /\
  fst (eliminar_persona 7 db1) = inl NotFound /\
  NotFound = HTTPException 404 "Persona no encontrada en el equipo".
Proof.
  split; [reflexivity|]. split; [reflexivity|].
  apply (missing_id_is_not_found db1 7 (only_edad 31)); reflexivity.
Defined.

(** C10: whenever get, update or delete fails with NotFound, the store
    after the call is the store before it. *)
Theorem not_found_writes_nothing
  (db : Database) (persona_id : Z) (u : PersonaUpdate) :
  (fst (obtener_persona persona_id db) = inl NotFound ->
   snd (obtener_persona persona_id db) = db) /\
  (fst (actualizar_persona persona_id u db) = inl NotFound ->
   snd (actualizar_persona persona_id u db) = db) /\
  (fst (eliminar_persona persona_id db) = inl NotFound ->
   snd (eliminar_persona persona_id db) = db).
Proof.
  rewrite obtener_persona_run, actualizar_persona_run, eliminar_persona_run.
  repeat split.
  - destruct (fits_int64 persona_id); [|reflexivity].
    destruct (find_row persona_id (personas db)); [|reflexivity].
    destruct (update_data u) as [|a l]; [reflexivity|].
    destruct (binding_error (a :: l)); [reflexivity|].
    destruct (update_rows (a :: l) persona_id (personas db)) as [rows|];
      [|reflexivity].
    simpl. destruct (find_row persona_id rows); discriminate.
  - destruct (fits_int64 persona_id); [|reflexivity].
    destruct (find_row persona_id (personas db)); [discriminate|reflexivity].
Qed.

Lemma not_found_writes_nothing_witness :
  snd (obtener_persona 7 db2) = db2 /\
  snd (actualizar_persona 7 (only_edad 31) db2) = db2 /\
  snd (eliminar_persona 7 db2) = db2.
Proof.
  destruct (not_found_writes_nothing db2 7 (only_edad 31)) as [Hg [Hu Hd]].
  split; [apply Hg; reflexivity|].
  split; [apply Hu; reflexivity | apply Hd; reflexivity].
Defined.




(** ** Well-formed stores *)

Lemma increasing_from_lower (lo lo' : Z) (l : list Z) :
  lo' <= lo -> increasing_from lo l = true -> increasing_from lo' l = true.
Proof.
  destruct l as [|i l]; [reflexivity|]. simpl. intros Hle.
  rewrite !andb_true_iff, !Z.ltb_lt. intros [Hlt Hinc]. split; [lia | exact Hinc].
Qed.

Lemma increasing_from_above (lo : Z) (l : list Z) :
  increasing_from lo l = true -> forall i, In i l -> lo < i.
Proof.
  revert lo. induction l as [|j l IH]; simpl; [tauto|].
  intros lo. rewrite andb_true_iff, Z.ltb_lt. intros [Hlt Hinc] i [->|Hin].
  - exact Hlt.
  - specialize (IH j Hinc i Hin). lia.
Qed.

Lemma increasing_from_NoDup (lo : Z) (l : list Z) :
  increasing_from lo l = true -> NoDup l.
Proof.
  revert lo. induction l as [|j l IH]; simpl; intros lo; [constructor|].
  rewrite andb_true_iff. intros [_ Hinc]. constructor; [|now apply (IH j)].
  intros Hin. apply (increasing_from_above j l Hinc) in Hin. lia.
Qed.

Lemma wf_store_spec (db : Database) :
  wf_store db = true <->
  increasing_from 0 (ids db) = true /\
  (forall i, In i (ids db) -> i <= sqlite_sequence db) /\
  0 <= sqlite_sequence db <= INT64_MAX.
Proof.
  unfold wf_store. rewrite !andb_true_iff, forallb_forall, !Z.leb_le.
  split.
  - intros [[[Hinc Hall] H0] Hmax]. repeat split; try assumption.
    intros i Hin. apply Z.leb_le. now apply Hall.
  - intros [Hinc [Hall [H0 Hmax]]]. repeat split; try assumption.
    intros i Hin. apply Z.leb_le. now apply Hall.
Qed.

Lemma wf_store_id_range (db : Database) (row : Row) :
  wf_store db = true -> In row (personas db) ->
  0 < Row_id row <= sqlite_sequence db /\ fits_int64 (Row_id row) = true.
Proof.
  intros Hwf Hin. apply wf_store_spec in Hwf. destruct Hwf as [Hinc [Hall Hseq]].
  assert (Hid : In (Row_id row) (ids db)) by (unfold ids; now apply in_map).
  pose proof (increasing_from_above 0 _ Hinc _ Hid) as Hpos.
  pose proof (Hall _ Hid) as Hle.
  split; [lia|]. apply fits_int64_spec. unfold INT64_MIN, INT64_MAX in *. lia.
Qed.

Lemma wf_store_found_fits (db : Database) (persona_id : Z) (row : Row) :
  wf_store db = true -> find_row persona_id (personas db) = Some row ->
  fits_int64 persona_id = true.
Proof.
  intros Hwf Hfind. apply find_row_some in Hfind. destruct Hfind as [Hin <-].
  now apply (wf_store_id_range db row).
Qed.

(** With strictly increasing ids, deleting by id takes out one row and
    keeps every other row where it was. *)
Lemma filter_out_found (lo persona_id : Z) (rows : list Row) (row : Row) :
  increasing_from lo (map Row_id rows) = true ->
  find_row persona_id rows = Some row ->
  exists before after,
    rows = before ++ row :: after /\
    filter (fun r => negb (Row_id r =? persona_id)) rows = before ++ after.
Proof.
  revert lo. induction rows as [|r rows IH]; intros lo Hinc Hfind; [discriminate|].
  simpl in Hinc. apply andb_true_iff in Hinc. destruct Hinc as [_ Hinc].
  unfold find_row in Hfind. simpl in Hfind. simpl.
  destruct (Row_id r =? persona_id) eqn:Heq.
  - injection Hfind as <-. apply Z.eqb_eq in Heq.
    exists [], rows. split; [reflexivity|]. simpl.
    assert (Hall : forall r', In r' rows ->
                     negb (Row_id r' =? persona_id) = true).
    { intros r' Hin.
      pose proof (increasing_from_above _ _ Hinc (Row_id r') (in_map Row_id _ _ Hin)).
      apply negb_true_iff, Z.eqb_neq. lia. }
    clear -Hall. induction rows as [|r' rows IH]; [reflexivity|].
    simpl. rewrite (Hall r' (or_introl eq_refl)). f_equal.
    apply IH. intros r'' Hin. apply Hall. now right.
  - destruct (IH (Row_id r) Hinc Hfind) as [before [after [Hrows Hfilter]]].
    exists (r :: before), after. simpl. now rewrite Hrows at 1; rewrite Hfilter.
Qed.

Lemma find_row_filter_same (persona_id : Z) (rows : list Row) :
  find_row persona_id (filter (fun r => negb (Row_id r =? persona_id)) rows) = None.
Proof.
  unfold find_row. induction rows as [|r rows IH]; [reflexivity|].
  simpl. destruct (Row_id r =? persona_id) eqn:Heq; simpl; [exact IH|].
  now rewrite Heq.
Qed.

Lemma find_row_filter_other (persona_id j : Z) (rows : list Row) :
  j <> persona_id ->
  find_row j (filter (fun r => negb (Row_id r =? persona_id)) rows) = find_row j rows.
Proof.
  intros Hneq. unfold find_row. induction rows as [|r rows IH]; [reflexivity|].
  simpl. destruct (Row_id r =? persona_id) eqn:Heq; simpl.
  - apply Z.eqb_eq in Heq. rewrite IH.
    destruct (Row_id r =? j) eqn:Hj; [apply Z.eqb_eq in Hj; lia | reflexivity].
  - now rewrite IH.
Qed.

(** C4: for every id present in the store, update with an empty field set
    succeeds, returns the existing record with every field as it was, and
    leaves the store as it was. *)
Theorem empty_update_is_noop (db : Database) (persona_id : Z) (row : Row) :
  wf_store db = true ->
  find_row persona_id (personas db) = Some row ->
  actualizar_persona persona_id (mkPersonaUpdate Unset Unset Unset) db
  = (inr {| Persona_id := Some persona_id;
            Persona_nombre := Row_nombre row;
            Persona_edad := Row_edad row;
            Persona_puesto := Row_puesto row |}, db).
Proof.
  intros Hwf Hfind. rewrite actualizar_persona_run.
  rewrite (wf_store_found_fits db persona_id row Hwf Hfind), Hfind. simpl.
  apply find_row_some in Hfind. destruct Hfind as [_ <-]. reflexivity.
Qed.

Lemma empty_update_is_noop_witness :
  wf_store db2 = true /\
  find_row 2 (personas db2) = Some (mkRow 2 (text "Luis") 41 (text "Analyst")) /\
  actualizar_persona 2 (mkPersonaUpdate Unset Unset Unset) db2
  = (inr (mkPersona (Some 2) (text "Luis") 41 (text "Analyst")), db2).
Proof.
  split; [reflexivity|]. split; [reflexivity|].
  apply (empty_update_is_noop db2 2 (mkRow 2 (text "Luis") 41 (text "Analyst"))); reflexivity.
Defined.

(** C5: for every id present in the store, delete removes that row and
    no other, and returns the record as it was before removal; a get on
    the same id afterwards fails with NotFound. *)
Theorem delete_returns_snapshot (db : Database) (persona_id : Z) (row : Row) :
  wf_store db = true ->
  find_row persona_id (personas db) = Some row ->
  exists (db' : Database) (before after : list Row),
    eliminar_persona persona_id db
    = (inr {| message := text "Persona '" ++ Row_nombre row
                         ++ text "' eliminada del equipo";
              persona_eliminada := row |}, db') /\
    Row_id row = persona_id /\
    personas db = before ++ row :: after /\
    personas db' = before ++ after /\
    find_row persona_id (personas db') = None /\
    (forall j, j <> persona_id ->
       find_row j (personas db') = find_row j (personas db)) /\
    obtener_persona persona_id db' = (inl NotFound, db').
Proof.
  intros Hwf Hfind.
  pose proof (wf_store_found_fits db persona_id row Hwf Hfind) as Hfit.
  pose proof (proj1 (proj1 (wf_store_spec db) Hwf)) as Hinc.
  destruct (filter_out_found 0 persona_id (personas db) row Hinc Hfind)
    as [before [after [Hrows Hfilter]]].
  eexists. exists before, after.
  rewrite eliminar_persona_run, Hfit, Hfind.
  split; [reflexivity|]. cbn [personas].
  split; [exact (proj2 (find_row_some _ _ _ Hfind))|].
  split; [exact Hrows|]. split; [exact Hfilter|].
  split; [apply find_row_filter_same|].
  split; [intros j Hj; now apply find_row_filter_other|].
  rewrite obtener_persona_run, Hfit. cbn [personas].
  now rewrite find_row_filter_same.
Qed.

Lemma delete_returns_snapshot_witness :
  wf_store db2 = true /\
  find_row 1 (personas db2) = Some (mkRow 1 (text "Ana") 30 (text "Engineer")) /\
  exists (db' : Database) (before after : list Row),
    eliminar_persona 1 db2
    = (inr {| message := text "Persona '" ++ text "Ana"
                         ++ text "' eliminada del equipo";
              persona_eliminada := mkRow 1 (text "Ana") 30 (text "Engineer") |}, db') /\
    Row_id (mkRow 1 (text "Ana") 30 (text "Engineer")) = 1 /\
    personas db2 = before ++ mkRow 1 (text "Ana") 30 (text "Engineer") :: after /\
    personas db' = before ++ after /\
    find_row 1 (personas db') = None /\
    (forall j, j <> 1 -> find_row j (personas db') = find_row j (personas db2)) /\
    obtener_persona 1 db' = (inl NotFound, db').
Proof.
  split; [reflexivity|]. split; [reflexivity|].
  apply (delete_returns_snapshot db2 1 (mkRow 1 (text "Ana") 30 (text "Engineer"))); reflexivity.
Defined.

(** ** Updates *)

Lemma set_column_keeps_id (r r' : Row) (a : assignment) :
  set_column r a = Some r' -> Row_id r' = Row_id r.
Proof.
  destruct a as [[s|]|[z|]|[s|]]; simpl; intros H; try discriminate;
    now injection H as <-.
Qed.

Lemma set_columns_keeps_id (l : list assignment) (r r' : Row) :
  set_columns r l = Some r' -> Row_id r' = Row_id r.
Proof.
  revert r. induction l as [|a l IH]; simpl; intros r H.
  - now injection H as <-.
  - destruct (set_column r a) as [r1|] eqn:Ha; [|discriminate].
    rewrite (IH r1 H). exact (set_column_keeps_id r r1 a Ha).
Qed.

(** The UPDATE statement leaves the id column of every row alone. *)
Lemma update_rows_keeps_ids (l : list assignment) (persona_id : Z)
  (rows rows' : list Row) :
  update_rows l persona_id rows = Some rows' ->
  map Row_id rows' = map Row_id rows.
Proof.
  revert rows'. induction rows as [|r rows IH]; simpl; intros rows' H.
  - now injection H as <-.
  - destruct (Row_id r =? persona_id).
    + destruct (set_columns r l) as [r1|] eqn:Hr; [|discriminate].
      destruct (update_rows l persona_id rows) as [rest|]; [|discriminate].
      injection H as <-. simpl.
      now rewrite (set_columns_keeps_id l r r1 Hr), (IH rest eq_refl).
    + destruct (update_rows l persona_id rows) as [rest|]; [|discriminate].
      injection H as <-. simpl. now rewrite (IH rest eq_refl).
Qed.

Lemma update_rows_map (l : list assignment) (f : Row -> Row) (persona_id : Z)
  (rows : list Row) :
  (forall r, set_columns r l = Some (f r)) ->
  update_rows l persona_id rows
  = Some (map (fun r => if Row_id r =? persona_id then f r else r) rows).
Proof.
  intros Hf. induction rows as [|r rows IH]; [reflexivity|].
  simpl. rewrite IH, Hf. now destruct (Row_id r =? persona_id).
Qed.

Lemma find_row_map (f : Row -> Row) (persona_id : Z) (rows : list Row) :
  (forall r, Row_id (f r) = Row_id r) ->
  find_row persona_id
    (map (fun r => if Row_id r =? persona_id then f r else r) rows)
  = option_map f (find_row persona_id rows).
Proof.
  intros Hid. unfold find_row. induction rows as [|r rows IH]; [reflexivity|].
  simpl. destruct (Row_id r =? persona_id) eqn:Heq.
  - now rewrite Hid, Heq.
  - now rewrite Heq.
Qed.


Lemma storable_sets (u : PersonaUpdate) (r : Row) :
  storable_update u = true ->
  set_columns r (update_data u) = Some (merge_patch r u) /\
  binding_error (update_data u) = None.
Proof.
  destruct r as [i n e p].
  destruct u as [[|[n'|]] [|[e'|]] [|[p'|]]]; unfold storable_update; simpl;
    repeat match goal with
           | |- context [encodable ?x] => destruct (encodable x)
           | |- context [fits_int64 ?x] => destruct (fits_int64 x)
           end;
    simpl; intros H; try discriminate; split; reflexivity.
Qed.

Lemma merge_patch_nothing (r : Row) :
  merge_patch r (mkPersonaUpdate Unset Unset Unset) = r.
Proof. now destruct r. Qed.

Lemma update_data_nil (u : PersonaUpdate) :
  update_data u = [] -> u = mkPersonaUpdate Unset Unset Unset.
Proof. destruct u as [[|n] [|e] [|p]]; simpl; intros H; now try discriminate. Qed.

Lemma merge_patch_keeps_id (r : Row) (u : PersonaUpdate) :
  Row_id (merge_patch r u) = Row_id r.
Proof. reflexivity. Qed.

(** What a storable update does to the store and what it returns. *)
Lemma actualizar_persona_storable
  (db : Database) (persona_id : Z) (row : Row) (u : PersonaUpdate) :
  fits_int64 persona_id = true ->
  find_row persona_id (personas db) = Some row ->
  storable_update u = true ->
  actualizar_persona persona_id u db
  = (inr (Persona_of_row (merge_patch row u)),
     {| personas := map (fun r => if Row_id r =? persona_id
                                  then merge_patch r u else r) (personas db);
        sqlite_sequence := sqlite_sequence db |}).
Proof.
  intros Hfit Hfind Hst.
  rewrite actualizar_persona_run, Hfit, Hfind.
  destruct (update_data u) as [|a l] eqn:Hud.
  - apply update_data_nil in Hud. subst u. rewrite merge_patch_nothing.
    f_equal. destruct db as [rows seq]. cbn [personas sqlite_sequence]. f_equal.
    rewrite <- (map_id rows) at 1. apply map_ext. intros r.
    rewrite merge_patch_nothing. now destruct (Row_id r =? persona_id).
  - rewrite <- Hud.
    rewrite (proj2 (storable_sets u row Hst)).
    rewrite (update_rows_map (update_data u) (fun r => merge_patch r u))
      by (intros r; exact (proj1 (storable_sets u r Hst))).
    rewrite (find_row_map (fun r => merge_patch r u))
      by (intros r; apply merge_patch_keeps_id).
    now rewrite Hfind.
Qed.




(** ** Listing *)










(** C9, as stated, fails: the negative limit -2^63 - 1 makes the listing
    end in [OverflowError]. *)
Lemma list_undersized_limit_overflows :
  - 2 ^ 63 - 1 < 0 /\
  obtener_equipo 0 (- 2 ^ 63 - 1) db2 = (inl OverflowError, db2).
Proof. split; reflexivity. Qed.

(** C9 (amended): for every negative limit that is a signed 64-bit
    integer, and every skip that is one, list does not fail and is
    unbounded: it returns all rows after skip (all rows when skip is not
    positive), whatever their number. *)
Theorem negative_limit_is_unbounded (db : Database) (skip limit : Z) :
  INT64_MIN <= limit < 0 ->
  fits_int64 skip = true ->
  obtener_equipo skip limit db
  = (inr (map Persona_of_row (skipn (Z.to_nat skip) (personas db))), db) /\
  (skip <= 0 -> skipn (Z.to_nat skip) (personas db) = personas db).
Proof.
  intros Hlimit Hskip. split.
  - rewrite obtener_equipo_run, Hskip.
    assert (Hfl : fits_int64 limit = true)
      by (apply fits_int64_spec; unfold INT64_MIN, INT64_MAX in *; lia).
    rewrite Hfl. simpl. unfold limit_offset.
    assert (Hneg : (limit <? 0) = true) by (apply Z.ltb_lt; lia).
    now rewrite Hneg.
  - intros Hle. replace (Z.to_nat skip) with 0%nat by lia. reflexivity.
Qed.

Lemma negative_limit_is_unbounded_witness :
  INT64_MIN <= -1 < 0 /\
  fits_int64 1 = true /\
  obtener_equipo 1 (-1) db2
  = (inr (map Persona_of_row (skipn (Z.to_nat 1) (personas db2))), db2) /\
  (1 <= 0 -> skipn (Z.to_nat 1) (personas db2) = personas db2).
Proof.
  split; [unfold INT64_MIN; lia|]. split; [reflexivity|].
  apply (negative_limit_is_unbounded db2 1 (-1)); [unfold INT64_MIN; lia | reflexivity].
Defined.

(** ** Text columns *)






(** ** Ids *)

Lemma wf_store_ext (db db' : Database) :
  ids db' = ids db -> sqlite_sequence db' = sqlite_sequence db ->
  wf_store db' = wf_store db.
Proof. unfold wf_store. now intros -> ->. Qed.

Lemma ids_filter (persona_id : Z) (rows : list Row) :
  map Row_id (filter (fun r => negb (Row_id r =? persona_id)) rows)
  = filter (fun i => negb (i =? persona_id)) (map Row_id rows).
Proof.
  induction rows as [|r rows IH]; [reflexivity|].
  simpl. destruct (Row_id r =? persona_id); simpl; now rewrite IH.
Qed.

Lemma increasing_from_filter (f : Z -> bool) (lo : Z) (l : list Z) :
  increasing_from lo l = true -> increasing_from lo (filter f l) = true.
Proof.
  revert lo. induction l as [|i l IH]; intros lo; [reflexivity|].
  simpl. rewrite andb_true_iff, Z.ltb_lt. intros [Hlt Hinc].
  specialize (IH i Hinc). destruct (f i).
  - simpl. rewrite IH. now apply andb_true_iff, conj; [apply Z.ltb_lt|].
  - apply (increasing_from_lower i); [lia | exact IH].
Qed.

Lemma increasing_from_snoc (lo n : Z) (l : list Z) :
  increasing_from lo l = true -> (forall i, In i l -> i < n) -> lo < n ->
  increasing_from lo (l ++ [n]) = true.
Proof.
  revert lo. induction l as [|i l IH]; simpl; intros lo Hinc Hall Hlo.
  - apply andb_true_iff. split; [now apply Z.ltb_lt | reflexivity].
  - apply andb_true_iff in Hinc. destruct Hinc as [Hlt Hinc].
    rewrite Hlt. simpl. apply IH; [exact Hinc | | apply Hall; now left].
    intros j Hj. apply Hall. now right.
Qed.

Lemma wf_store_last (db : Database) :
  wf_store db = true ->
  largest_rowid db = sqlite_sequence db.
Proof.
  intros Hwf. apply wf_store_spec in Hwf. destruct Hwf as [_ [Hall [H0 _]]].
  assert (max_rowid (personas db) <= sqlite_sequence db);
    [|unfold largest_rowid; lia].
  unfold ids in Hall. induction (personas db) as [|r rows IH]; simpl; [exact H0|].
  apply Z.max_lub.
  - apply Hall. now left.
  - apply IH. intros i Hi. apply Hall. now right.
Qed.

Lemma actualizar_persona_ids (persona_id : Z) (u : PersonaUpdate) (db : Database) :
  ids (snd (actualizar_persona persona_id u db)) = ids db /\
  sqlite_sequence (snd (actualizar_persona persona_id u db)) = sqlite_sequence db.
Proof.
  rewrite actualizar_persona_run.
  destruct (fits_int64 persona_id); [|now split].
  destruct (find_row persona_id (personas db)); [|now split].
  destruct (update_data u) as [|a l]; [now split|].
  destruct (binding_error (a :: l)); [now split|].
  destruct (update_rows (a :: l) persona_id (personas db)) as [rows|] eqn:Hup;
    [|now split].
  split; [|reflexivity]. unfold ids. cbn [snd personas].
  exact (update_rows_keeps_ids _ _ _ _ Hup).
Qed.

Lemma eliminar_persona_ids (persona_id : Z) (db : Database) :
  (ids (snd (eliminar_persona persona_id db)) = ids db \/
   ids (snd (eliminar_persona persona_id db))
   = filter (fun i => negb (i =? persona_id)) (ids db)) /\
  sqlite_sequence (snd (eliminar_persona persona_id db)) = sqlite_sequence db.
Proof.
  rewrite eliminar_persona_run.
  destruct (fits_int64 persona_id); [|split; [now left | reflexivity]].
  destruct (find_row persona_id (personas db)); [|split; [now left | reflexivity]].
  split; [right | reflexivity]. unfold ids. cbn [snd personas]. apply ids_filter.
Qed.

Lemma crear_persona_ids (persona : PersonaCreate) (db : Database) :
  let fresh := largest_rowid db + 1 in
  (snd (crear_persona persona db) = db /\
   exists e, fst (crear_persona persona db) = inl e) \/
  (ids (snd (crear_persona persona db)) = ids db ++ [fresh] /\
   sqlite_sequence (snd (crear_persona persona db)) = fresh /\
   fresh <= INT64_MAX /\
   exists p, fst (crear_persona persona db) = inr p /\ Persona_id p = Some fresh).
Proof.
  cbv zeta. rewrite crear_persona_run.
  destruct (encodable (PersonaCreate_nombre persona));
    [|left; split; [reflexivity | eexists; reflexivity]].
  destruct (fits_int64 (PersonaCreate_edad persona));
    [|left; split; [reflexivity | eexists; reflexivity]].
  destruct (encodable (PersonaCreate_puesto persona));
    [|left; split; [reflexivity | eexists; reflexivity]].
  destruct (exhausted db) eqn:Hex;
    [left; split; [reflexivity | eexists; reflexivity]|].
  right. cbv zeta. cbn [snd fst]. unfold ids. cbn [personas sqlite_sequence].
  rewrite map_app. split; [reflexivity|]. split; [reflexivity|].
  apply exhausted_false in Hex. split; [lia|]. eexists. split; reflexivity.
Qed.

Lemma handle_wf (db : Database) (rq : request) :
  wf_store db = true -> wf_store (handle db rq) = true.
Proof.
  intros Hwf. destruct rq as [c|skip limit|i|i u|i]; simpl.
  - destruct (crear_persona_ids c db) as [[-> _]|[Hids [Hseq [Hmax _]]]];
      [exact Hwf|].
    rewrite (wf_store_last db Hwf) in Hids, Hseq, Hmax.
    pose proof (proj1 (wf_store_spec db) Hwf) as [Hinc [Hall [H0 _]]].
    apply wf_store_spec. rewrite Hids, Hseq. split; [|split; [|lia]].
    + apply increasing_from_snoc; [exact Hinc | | lia].
      intros j Hj. specialize (Hall j Hj). lia.
    + intros j Hj. apply in_app_or in Hj. destruct Hj as [Hj|[<-|[]]]; [|lia].
      specialize (Hall j Hj). lia.
  - now rewrite obtener_equipo_run.
  - now rewrite obtener_persona_run.
  - destruct (actualizar_persona_ids i u db) as [Hids Hseq].
    now rewrite (wf_store_ext _ _ Hids Hseq).
  - destruct (eliminar_persona_ids i db) as [[Hids|Hids] Hseq].
    + now rewrite (wf_store_ext _ _ Hids Hseq).
    + pose proof (proj1 (wf_store_spec db) Hwf) as [Hinc [Hall Hrange]].
      apply wf_store_spec. rewrite Hids, Hseq. split; [|split; [|exact Hrange]].
      * now apply increasing_from_filter.
      * intros j Hj. apply filter_In in Hj. now apply Hall.
Qed.

Lemma serve_wf (rqs : list request) (db : Database) :
  wf_store db = true -> wf_store (serve rqs db) = true.
Proof.
  revert db. induction rqs as [|rq rqs IH]; intros db Hwf; [exact Hwf|].
  simpl. apply IH. now apply handle_wf.
Qed.

Lemma reachable_wf (rqs : list request) :
  wf_store (serve rqs (init_database None)) = true.
Proof. now apply serve_wf. Qed.

(** No request ever lowers the AUTOINCREMENT counter. *)
Lemma handle_sequence_mono (db : Database) (rq : request) :
  sqlite_sequence db <= sqlite_sequence (handle db rq).
Proof.
  destruct rq as [c|skip limit|i|i u|i]; simpl.
  - destruct (crear_persona_ids c db) as [[-> _]|[_ [-> _]]];
      unfold largest_rowid; lia.
  - rewrite obtener_equipo_run. simpl. lia.
  - rewrite obtener_persona_run. simpl. lia.
  - rewrite (proj2 (actualizar_persona_ids i u db)). lia.
  - rewrite (proj2 (eliminar_persona_ids i db)). lia.
Qed.

Lemma serve_sequence_mono (rqs : list request) (db : Database) :
  sqlite_sequence db <= sqlite_sequence (serve rqs db).
Proof.
  unfold serve. revert db.
  induction rqs as [|rq rqs IH]; intros db; simpl; [lia|].
  pose proof (handle_sequence_mono db rq). specialize (IH (handle db rq)). lia.
Qed.

(** C7: ids are generated by the store at create time (one more than the
    largest rowid the table ever held, whatever the request says), are
    distinct across the persisted records of every store reached from a
    well-formed one, are strictly increasing across successive creates
    whatever requests come in between, and are never changed afterwards:
    update leaves the id column as it is, and the only changes to the ids
    of the table are create appending the fresh id and delete removing
    the deleted one. *)
Theorem ids_generated_distinct_increasing_immutable :
  (forall (db db' : Database) (persona : PersonaCreate) (p : Persona),
      crear_persona persona db = (inr p, db') ->
      let fresh := largest_rowid db + 1 in
      Persona_id p = Some fresh /\ ids db' = ids db ++ [fresh]) /\
  (forall (db : Database) (rqs : list request),
      wf_store db = true -> NoDup (ids (serve rqs db))) /\
  (forall rqs : list request, NoDup (ids (serve rqs (init_database None)))) /\
  (forall (db db1 db2 : Database) (c1 c2 : PersonaCreate) (p1 p2 : Persona)
          (rqs : list request),
      crear_persona c1 db = (inr p1, db1) ->
      crear_persona c2 (serve rqs db1) = (inr p2, db2) ->
      exists i1 i2 : Z,
        Persona_id p1 = Some i1 /\ Persona_id p2 = Some i2 /\ i1 < i2) /\
  (forall (db : Database) (rq : request),
      match rq with
      | Crear _ =>
          ids (handle db rq) = ids db \/
          ids (handle db rq)
          = ids db ++ [largest_rowid db + 1]
      | Eliminar persona_id =>
          ids (handle db rq) = ids db \/
          ids (handle db rq) = filter (fun i => negb (i =? persona_id)) (ids db)
      | Listar _ _ | Obtener _ | Actualizar _ _ => ids (handle db rq) = ids db
      end).
Proof.
  assert (Hcreate :
    forall (db db' : Database) (persona : PersonaCreate) (p : Persona),
      crear_persona persona db = (inr p, db') ->
      Persona_id p = Some (largest_rowid db + 1) /\
      ids db' = ids db ++ [largest_rowid db + 1] /\
      sqlite_sequence db'
      = largest_rowid db + 1).
  { intros db db' persona p Hrun.
    destruct (crear_persona_ids persona db) as [[_ [e He]]|[Hids [Hseq [_ [q [Hq Hid]]]]]];
      rewrite Hrun in *; simpl in *; [discriminate|].
    injection Hq as <-. auto. }
  assert (Hdistinct :
    forall (db : Database) (rqs : list request),
      wf_store db = true -> NoDup (ids (serve rqs db))).
  { intros db rqs Hwf.
    pose proof (serve_wf rqs db Hwf) as Hwf'.
    apply wf_store_spec in Hwf'. destruct Hwf' as [Hinc _].
    exact (increasing_from_NoDup 0 _ Hinc). }
  split; [|split; [|split; [|split]]].
  - intros db db' persona p Hrun. cbv zeta.
    destruct (Hcreate db db' persona p Hrun) as [Hid [Hids _]]. now split.
  - exact Hdistinct.
  - intros rqs. now apply Hdistinct.
  - intros db db1 db2 c1 c2 p1 p2 rqs Hrun1 Hrun2.
    destruct (Hcreate _ _ _ _ Hrun1) as [Hid1 [_ Hseq1]].
    destruct (Hcreate _ _ _ _ Hrun2) as [Hid2 _].
    do 2 eexists. split; [exact Hid1|]. split; [exact Hid2|].
    pose proof (serve_sequence_mono rqs db1). unfold largest_rowid in *. lia.
  - intros db rq. destruct rq as [c|skip limit|i|i u|i]; simpl.
    + destruct (crear_persona_ids c db) as [[-> _]|[Hids _]]; [now left|now right].
    + now rewrite obtener_equipo_run.
    + now rewrite obtener_persona_run.
    + exact (proj1 (actualizar_persona_ids i u db)).
    + exact (proj1 (eliminar_persona_ids i db)).
Qed.

Lemma ids_generated_distinct_increasing_immutable_witness :
  wf_store db2 = true /\
  NoDup (ids (serve [Eliminar 1; Crear ana; Actualizar 2 (only_edad 42)] db2)) /\
  (exists i1 i2 : Z,
      Persona_id (mkPersona (Some 1) (text "Ana") 30 (text "Engineer")) = Some i1 /\
      Persona_id (mkPersona (Some 3) (text "Luis") 41 (text "Analyst")) = Some i2 /\ i1 < i2).
Proof.
  destruct ids_generated_distinct_increasing_immutable
    as [_ [Hdistinct [_ [Hinc _]]]].
  split; [reflexivity|].
  split; [apply Hdistinct; reflexivity|].
  apply (Hinc db0 db1 (snd (crear_persona luis (serve [Crear luis; Eliminar 2] db1)))
              ana luis _ _ [Crear luis; Eliminar 2]); reflexivity.
Defined.

(** * Further properties of the handlers *)

(** ** What the handlers never do *)

Lemma find_row_none_ids (persona_id : Z) (rows : list Row) :
  find_row persona_id rows = None <-> ~ In persona_id (map Row_id rows).
Proof.
  unfold find_row. induction rows as [|r rows IH]; simpl; [tauto|].
  destruct (Row_id r =? persona_id) eqn:Heq.
  - apply Z.eqb_eq in Heq. split; [discriminate | tauto].
  - apply Z.eqb_neq in Heq. rewrite IH. tauto.
Qed.

(** After the UPDATE, the row is still there to be read back. *)
Lemma update_rows_still_found (l : list assignment) (persona_id : Z)
  (rows rows' : list Row) (row : Row) :
  find_row persona_id rows = Some row ->
  update_rows l persona_id rows = Some rows' ->
  find_row persona_id rows' <> None.
Proof.
  intros Hfind Hup Hnone. apply update_rows_keeps_ids in Hup.
  apply find_row_none_ids in Hnone. rewrite Hup in Hnone.
  apply find_row_none_ids in Hnone. congruence.
Qed.

(** X3: the two reading handlers never write: whatever the arguments and
    whether they return or raise, the store after get and after list is
    the store before. *)
Theorem reading_handlers_never_write
  (db : Database) (persona_id skip limit : Z) :
  snd (obtener_persona persona_id db) = db /\
  snd (obtener_equipo skip limit db) = db.
Proof. now rewrite obtener_persona_run, obtener_equipo_run. Qed.

(** X4: a request that ends in an exception, of whatever kind, writes
    nothing: the store after the failed create, list, get, update or
    delete is the store before it. *)
Theorem failed_request_writes_nothing
  (db : Database) (rq : request) (e : exception) :
  match rq with
  | Crear persona => fst (crear_persona persona db) = inl e
  | Listar skip limit => fst (obtener_equipo skip limit db) = inl e
  | Obtener persona_id => fst (obtener_persona persona_id db) = inl e
  | Actualizar persona_id u => fst (actualizar_persona persona_id u db) = inl e
  | Eliminar persona_id => fst (eliminar_persona persona_id db) = inl e
  end ->
  handle db rq = db.
Proof.
  destruct rq as [c|skip limit|i|i u|i]; simpl.
  - rewrite crear_persona_run.
    destruct (encodable (PersonaCreate_nombre c)); [|reflexivity].
    destruct (fits_int64 (PersonaCreate_edad c)); [|reflexivity].
    destruct (encodable (PersonaCreate_puesto c)); [|reflexivity].
    destruct (exhausted db); [reflexivity | discriminate].
  - now rewrite obtener_equipo_run.
  - now rewrite obtener_persona_run.
  - rewrite actualizar_persona_run.
    destruct (fits_int64 i); [|reflexivity].
    destruct (find_row i (personas db)) as [row|] eqn:Hfind; [|reflexivity].
    destruct (update_data u) as [|a l]; [reflexivity|].
    destruct (binding_error (a :: l)); [reflexivity|].
    destruct (update_rows (a :: l) i (personas db)) as [rows|] eqn:Hup;
      [|reflexivity].
    simpl. pose proof (update_rows_still_found _ _ _ _ _ Hfind Hup) as Hstill.
    destruct (find_row i rows); [discriminate | contradiction].
  - rewrite eliminar_persona_run.
    destruct (fits_int64 i); [|reflexivity].
    destruct (find_row i (personas db)); [discriminate | reflexivity].
Qed.

Lemma failed_request_writes_nothing_witness :
  handle db2 (Actualizar 1 (mkPersonaUpdate Unset Unset (Given None))) = db2.
Proof.
  apply (failed_request_writes_nothing db2
           (Actualizar 1 (mkPersonaUpdate Unset Unset (Given None)))
           IntegrityError).
  reflexivity.
Defined.

(** ** Creating *)



(** X7: create touches no record that was there: after a successful
    create the table is the old table followed by one new row, the row of
    the returned record, so every get that succeeded before returns the
    same record after. *)
Theorem create_keeps_existing_records
  (db db' : Database) (persona : PersonaCreate) (p : Persona) :
  crear_persona persona db = (inr p, db') ->
  (exists row : Row,
      personas db' = personas db ++ [row] /\ Persona_of_row row = p) /\
  (forall (j : Z) (q : Persona),
      obtener_persona j db = (inr q, db) ->
      obtener_persona j db' = (inr q, db')).
Proof.
  intros Hrun. apply crear_persona_success in Hrun.
  destruct Hrun as [_ [_ [-> ->]]]. split.
  - eexists. split; reflexivity.
  - intros j q. rewrite !obtener_persona_run.
    destruct (fits_int64 j); [|discriminate].
    cbn [personas]. rewrite find_row_app.
    destruct (find_row j (personas db)); [|discriminate].
    now intros [= <-].
Qed.

Lemma create_keeps_existing_records_witness :
  (exists row : Row,
      personas db2 = personas db1 ++ [row] /\
      Persona_of_row row = mkPersona (Some 2) (text "Luis") 41 (text "Analyst")) /\
  (forall (j : Z) (q : Persona),
      obtener_persona j db1 = (inr q, db1) ->
      obtener_persona j db2 = (inr q, db2)).
Proof.
  apply (create_keeps_existing_records db1 db2 luis). reflexivity.
Defined.

(** X8: an id is never handed out twice.  Whatever id a well-formed
    store holds, every create that succeeds later, after any requests
    (the deletion of that record among them), returns a larger id. *)
Theorem ids_are_never_reused
  (db db' : Database) (i : Z) (rqs : list request)
  (persona : PersonaCreate) (p : Persona) :
  wf_store db = true ->
  In i (ids db) ->
  crear_persona persona (serve rqs db) = (inr p, db') ->
  exists j : Z, Persona_id p = Some j /\ i < j.
Proof.
  intros Hwf Hin Hrun. apply crear_persona_success in Hrun.
  destruct Hrun as [_ [_ [-> _]]]. eexists. split; [reflexivity|].
  apply wf_store_spec in Hwf. destruct Hwf as [_ [Hall _]].
  specialize (Hall i Hin). pose proof (serve_sequence_mono rqs db).
  unfold largest_rowid. lia.
Qed.

Lemma ids_are_never_reused_witness :
  wf_store db2 = true /\
  In 2 (ids db2) /\
  exists j : Z, Persona_id (mkPersona (Some 3) (text "Ana") 30 (text "Engineer")) = Some j /\ 2 < j.
Proof.
  split; [reflexivity|]. split; [right; left; reflexivity|].
  apply (ids_are_never_reused db2
           (snd (crear_persona ana (serve [Eliminar 2] db2)))
           2 [Eliminar 2] ana);
    [reflexivity | right; left; reflexivity | reflexivity].
Defined.

Lemma filter_out_above_max (persona_id : Z) (rows : list Row) :
  max_rowid rows < persona_id ->
  filter (fun r => negb (Row_id r =? persona_id)) rows = rows.
Proof.
  intros Hlt. induction rows as [|r rows IH]; [reflexivity|].
  simpl in *. assert (Hne : (Row_id r =? persona_id) = false)
    by (apply Z.eqb_neq; lia).
  rewrite Hne. simpl. f_equal. apply IH. lia.
Qed.

(** X9: deleting the record a create just made gives back the table as
    it was before the create, and returns that record, but does not give
    back the id: the counter stays at the id that was handed out. *)
Theorem create_then_delete
  (db db1 : Database) (persona : PersonaCreate) (p : Persona) :
  crear_persona persona db = (inr p, db1) ->
  exists (i : Z) (gone : Eliminada) (db2 : Database),
    Persona_id p = Some i /\
    eliminar_persona i db1 = (inr gone, db2) /\
    Persona_of_row (persona_eliminada gone) = p /\
    personas db2 = personas db /\
    sqlite_sequence db2 = i /\
    sqlite_sequence db < i.
Proof.
  intros Hrun. apply crear_persona_success in Hrun.
  destruct Hrun as [_ [Hroom [-> ->]]].
  exists (largest_rowid db + 1). do 2 eexists.
  split; [reflexivity|].
  rewrite eliminar_persona_run, (fresh_rowid_fits db Hroom). cbn [personas].
  rewrite find_row_app, find_row_above_max by (unfold largest_rowid; lia).
  unfold find_row at 1. cbn [find Row_id]. rewrite Z.eqb_refl.
  split; [reflexivity|]. cbn [persona_eliminada personas sqlite_sequence].
  split; [reflexivity|]. split; [|split; [reflexivity | unfold largest_rowid; lia]].
  rewrite filter_app, filter_out_above_max by (unfold largest_rowid; lia).
  simpl. rewrite Z.eqb_refl. simpl. apply app_nil_r.
Qed.

Lemma create_then_delete_witness :
  exists (i : Z) (gone : Eliminada) (db' : Database),
    Persona_id (mkPersona (Some 2) (text "Luis") 41 (text "Analyst")) = Some i /\
    eliminar_persona i db2 = (inr gone, db') /\
    Persona_of_row (persona_eliminada gone) = mkPersona (Some 2) (text "Luis") 41 (text "Analyst") /\
    personas db' = personas db1 /\
    sqlite_sequence db' = i /\
    sqlite_sequence db1 < i.
Proof.
  apply (create_then_delete db1 db2 luis). reflexivity.
Defined.

(** ** Updating *)

Lemma update_rows_sets_found (l : list assignment) (persona_id : Z)
  (rows rows' : list Row) (row : Row) :
  find_row persona_id rows = Some row ->
  update_rows l persona_id rows = Some rows' ->
  set_columns row l <> None.
Proof.
  unfold find_row. revert rows'.
  induction rows as [|r rows IH]; intros rows' Hfind Hup; [discriminate|].
  simpl in *. destruct (Row_id r =? persona_id).
  - injection Hfind as <-. now destruct (set_columns r l).
  - destruct (update_rows l persona_id rows) as [rest|]; [|discriminate].
    now apply (IH rest).
Qed.

Lemma sets_storable (u : PersonaUpdate) (r : Row) :
  binding_error (update_data u) = None ->
  set_columns r (update_data u) <> None ->
  storable_update u = true.
Proof.
  destruct u as [[|[n|]] [|[e|]] [|[p|]]]; unfold storable_update; simpl;
    repeat match goal with
           | |- context [encodable ?x] => destruct (encodable x)
           | |- context [fits_int64 ?x] => destruct (fits_int64 x)
           end;
    simpl; intros Hbind Hset; try reflexivity; try discriminate;
    now contradiction Hset.
Qed.

(** An update returns a record only if all it supplies can be stored. *)
Lemma actualizar_persona_success
  (db db' : Database) (persona_id : Z) (u : PersonaUpdate) (p : Persona) :
  actualizar_persona persona_id u db = (inr p, db') ->
  fits_int64 persona_id = true /\
  storable_update u = true /\
  exists row : Row, find_row persona_id (personas db) = Some row.
Proof.
  rewrite actualizar_persona_run.
  destruct (fits_int64 persona_id); [|discriminate].
  destruct (find_row persona_id (personas db)) as [row|] eqn:Hfind; [|discriminate].
  destruct (update_data u) as [|a l] eqn:Hud.
  - intros _. apply update_data_nil in Hud. subst u. repeat split. now exists row.
  - destruct (binding_error (a :: l)) eqn:Hfit; [discriminate|].
    destruct (update_rows (a :: l) persona_id (personas db)) as [rows|] eqn:Hup;
      [|discriminate].
    intros _. split; [reflexivity|]. split; [|now exists row].
    rewrite <- Hud in Hfit, Hup.
    apply (sets_storable u row Hfit).
    exact (update_rows_sets_found _ _ _ _ _ Hfind Hup).
Qed.

Lemma merge_patch_twice (r : Row) (u : PersonaUpdate) :
  merge_patch (merge_patch r u) u = merge_patch r u.
Proof. now destruct u as [[|[n|]] [|[e|]] [|[p|]]]. Qed.

(** X10: read your writes.  The record an update returns is the record a
    get on the same id returns right after it. *)
Theorem update_then_get
  (db db' : Database) (persona_id : Z) (u : PersonaUpdate) (p : Persona) :
  actualizar_persona persona_id u db = (inr p, db') ->
  obtener_persona persona_id db' = (inr p, db').
Proof.
  intros Hrun.
  destruct (actualizar_persona_success _ _ _ _ _ Hrun) as [Hfit [Hst [row Hfind]]].
  rewrite (actualizar_persona_storable db persona_id row u Hfit Hfind Hst) in Hrun.
  injection Hrun as <- <-.
  rewrite obtener_persona_run, Hfit. cbn [personas].
  rewrite (find_row_map (fun r => merge_patch r u))
    by (intros r; apply merge_patch_keeps_id).
  now rewrite Hfind.
Qed.

Lemma update_then_get_witness :
  obtener_persona 1 (snd (actualizar_persona 1 (only_edad 31) db2))
  = (inr (mkPersona (Some 1) (text "Ana") 31 (text "Engineer")),
     snd (actualizar_persona 1 (only_edad 31) db2)).
Proof.
  apply (update_then_get db2 _ 1 (only_edad 31)). reflexivity.
Defined.

(** X11: update is idempotent.  Sending again an update that succeeded
    returns the same record and leaves the store as the first one left
    it. *)
Theorem update_is_idempotent
  (db db' : Database) (persona_id : Z) (u : PersonaUpdate) (p : Persona) :
  actualizar_persona persona_id u db = (inr p, db') ->
  actualizar_persona persona_id u db' = (inr p, db').
Proof.
  intros Hrun.
  destruct (actualizar_persona_success _ _ _ _ _ Hrun) as [Hfit [Hst [row Hfind]]].
  rewrite (actualizar_persona_storable db persona_id row u Hfit Hfind Hst) in Hrun.
  injection Hrun as <- <-.
  rewrite (actualizar_persona_storable _ persona_id (merge_patch row u) u Hfit);
    [|cbn [personas];
      rewrite (find_row_map (fun r => merge_patch r u))
        by (intros r; apply merge_patch_keeps_id);
      now rewrite Hfind
     |exact Hst].
  rewrite merge_patch_twice. cbn [personas sqlite_sequence].
  f_equal. f_equal. rewrite map_map. apply map_ext. intros r.
  destruct (Row_id r =? persona_id) eqn:Heq.
  - rewrite merge_patch_keeps_id, Heq. apply merge_patch_twice.
  - now rewrite Heq.
Qed.

Lemma update_is_idempotent_witness :
  actualizar_persona 1 (only_edad 31) (snd (actualizar_persona 1 (only_edad 31) db2))
  = (inr (mkPersona (Some 1) (text "Ana") 31 (text "Engineer")),
     snd (actualizar_persona 1 (only_edad 31) db2)).
Proof.
  apply (update_is_idempotent db2 _ 1 (only_edad 31)). reflexivity.
Defined.



(** ** Listing and getting *)

Lemma in_firstn (A : Type) (n : nat) (l : list A) (a : A) :
  In a (firstn n l) -> In a l.
Proof.
  revert l. induction n as [|n IH]; intros [|b l]; simpl; try tauto.
  intros [->|Hin]; [now left | right; now apply IH].
Qed.

Lemma in_skipn (A : Type) (n : nat) (l : list A) (a : A) :
  In a (skipn n l) -> In a l.
Proof.
  revert l. induction n as [|n IH]; intros [|b l]; simpl; try tauto.
  intros Hin. right. now apply IH.
Qed.

Lemma NoDup_map_Some (A : Type) (l : list A) :
  NoDup l -> NoDup (map Some l).
Proof.
  induction 1 as [|a l Hnotin Hnodup IH]; simpl; constructor; [|exact IH].
  intros Hin. apply in_map_iff in Hin. destruct Hin as [b [[= ->] Hb]].
  contradiction.
Qed.

Lemma limit_offset_incl (limit skip : Z) (rows : list Row) (r : Row) :
  In r (limit_offset limit skip rows) -> In r rows.
Proof.
  unfold limit_offset. intros Hin.
  destruct (limit <? 0); [|apply in_firstn in Hin];
    now apply (in_skipn Row (Z.to_nat skip)).
Qed.

Lemma find_row_of_member (lo : Z) (rows : list Row) (r : Row) :
  increasing_from lo (map Row_id rows) = true ->
  In r rows -> find_row (Row_id r) rows = Some r.
Proof.
  revert lo. induction rows as [|r0 rows IH]; intros lo Hinc Hin; [contradiction|].
  simpl in Hinc. apply andb_true_iff in Hinc. destruct Hinc as [_ Hinc].
  unfold find_row. simpl. destruct Hin as [->|Hin].
  - now rewrite Z.eqb_refl.
  - pose proof (increasing_from_above _ _ Hinc (Row_id r) (in_map Row_id _ _ Hin)).
    assert (Hne : (Row_id r0 =? Row_id r) = false) by (apply Z.eqb_neq; lia).
    rewrite Hne. exact (IH (Row_id r0) Hinc Hin).
Qed.

Lemma increasing_from_skipn (n : nat) (lo : Z) (l : list Z) :
  increasing_from lo l = true -> increasing_from lo (skipn n l) = true.
Proof.
  revert lo l. induction n as [|n IH]; intros lo l Hinc; [exact Hinc|].
  destruct l as [|i l]; [reflexivity|].
  simpl in *. apply andb_true_iff in Hinc. destruct Hinc as [Hlt Hinc].
  apply Z.ltb_lt in Hlt.
  apply (increasing_from_lower i); [lia | now apply IH].
Qed.

Lemma increasing_from_firstn (n : nat) (lo : Z) (l : list Z) :
  increasing_from lo l = true -> increasing_from lo (firstn n l) = true.
Proof.
  revert lo l. induction n as [|n IH]; intros lo l Hinc; [reflexivity|].
  destruct l as [|i l]; [reflexivity|].
  simpl in *. apply andb_true_iff in Hinc. destruct Hinc as [Hlt Hinc].
  rewrite Hlt. simpl. now apply IH.
Qed.

Lemma limit_offset_ids_increasing (limit skip : Z) (rows : list Row) :
  increasing_from 0 (map Row_id rows) = true ->
  increasing_from 0 (map Row_id (limit_offset limit skip rows)) = true.
Proof.
  intros Hinc. unfold limit_offset.
  destruct (limit <? 0).
  - rewrite <- skipn_map. now apply increasing_from_skipn.
  - rewrite <- firstn_map, <- skipn_map.
    now apply increasing_from_firstn, increasing_from_skipn.
Qed.

Lemma firstn_add (A : Type) (n m : nat) (l : list A) :
  firstn (n + m) l = firstn n l ++ firstn m (skipn n l).
Proof.
  revert l. induction n as [|n IH]; intros l; [reflexivity|].
  destruct l as [|a l]; simpl; [now rewrite firstn_nil | now rewrite IH].
Qed.

Lemma skipn_add (A : Type) (n m : nat) (l : list A) :
  skipn (n + m) l = skipn m (skipn n l).
Proof.
  revert l. induction n as [|n IH]; intros l; [reflexivity|].
  destruct l as [|a l]; simpl; [now rewrite skipn_nil | apply IH].
Qed.

(** X13: list and get agree.  In a well-formed store every record a
    listing returns is the record get returns for its id, and every
    record get returns is in the unbounded listing. *)
Theorem list_and_get_agree (db : Database) :
  wf_store db = true ->
  (forall (skip limit : Z) (ps : list Persona) (p : Persona),
      fst (obtener_equipo skip limit db) = inr ps ->
      In p ps ->
      exists i : Z, Persona_id p = Some i /\
                    obtener_persona i db = (inr p, db)) /\
  (forall (i : Z) (p : Persona),
      fst (obtener_persona i db) = inr p ->
      exists ps : list Persona,
        obtener_equipo 0 (-1) db = (inr ps, db) /\ In p ps).
Proof.
  intros Hwf. split.
  - intros skip limit ps p. rewrite obtener_equipo_run.
    destruct (fits_int64 limit && fits_int64 skip); [|discriminate].
    simpl. intros [= <-] Hin. apply in_map_iff in Hin.
    destruct Hin as [r [<- Hin]]. apply limit_offset_incl in Hin.
    exists (Row_id r). split; [reflexivity|].
    rewrite obtener_persona_run.
    rewrite (proj2 (wf_store_id_range db r Hwf Hin)).
    pose proof (proj1 (proj1 (wf_store_spec db) Hwf)) as Hinc.
    now rewrite (find_row_of_member 0 (personas db) r Hinc Hin).
  - intros i p. rewrite obtener_persona_run, obtener_equipo_run.
    destruct (fits_int64 i); [|discriminate].
    destruct (find_row i (personas db)) as [r|] eqn:Hfind; [|discriminate].
    simpl. intros [= <-]. eexists. split; [reflexivity|].
    apply in_map. unfold limit_offset. simpl.
    exact (proj1 (find_row_some _ _ _ Hfind)).
Qed.

Lemma list_and_get_agree_witness :
  wf_store db2 = true /\
  exists i : Z,
    Persona_id (mkPersona (Some 2) (text "Luis") 41 (text "Analyst")) = Some i /\
    obtener_persona i db2 = (inr (mkPersona (Some 2) (text "Luis") 41 (text "Analyst")), db2).
Proof.
  split; [reflexivity|].
  apply (proj1 (list_and_get_agree db2 eq_refl) 1 1
           [mkPersona (Some 2) (text "Luis") 41 (text "Analyst")]);
    [reflexivity | left; reflexivity].
Defined.

(** X14: pages tile the table.  For a non-negative skip and non-negative
    page sizes n and m within the 64-bit range, the page of n records
    after skip followed by the page of m records after skip + n is the
    page of n + m records after skip: no record is repeated or left out
    between consecutive pages. *)
Theorem consecutive_pages_concatenate (db : Database) (skip n m : Z) :
  0 <= skip -> 0 <= n -> 0 <= m ->
  skip + n <= INT64_MAX -> n + m <= INT64_MAX ->
  exists ps1 ps2 : list Persona,
    obtener_equipo skip n db = (inr ps1, db) /\
    obtener_equipo (skip + n) m db = (inr ps2, db) /\
    obtener_equipo skip (n + m) db = (inr (ps1 ++ ps2), db).
Proof.
  intros Hskip Hn Hm Hsn Hnm.
  assert (Hfit : forall z, 0 <= z <= INT64_MAX -> fits_int64 z = true)
    by (intros z Hz; apply fits_int64_spec; unfold INT64_MIN, INT64_MAX in *; lia).
  assert (Hpos : forall z, 0 <= z -> (z <? 0) = false)
    by (intros z Hz; apply Z.ltb_ge; lia).
  do 2 eexists. rewrite !obtener_equipo_run.
  rewrite (Hfit skip), (Hfit n), (Hfit m), (Hfit (skip + n)), (Hfit (n + m))
    by lia.
  simpl andb. cbv iota.
  split; [reflexivity|]. split; [reflexivity|].
  unfold limit_offset. rewrite !Hpos by lia.
  rewrite !Z2Nat.inj_add by lia.
  now rewrite firstn_add, skipn_add, map_app.
Qed.

Lemma consecutive_pages_concatenate_witness :
  exists ps1 ps2 : list Persona,
    obtener_equipo 0 1 db2 = (inr ps1, db2) /\
    obtener_equipo (0 + 1) 1 db2 = (inr ps2, db2) /\
    obtener_equipo 0 (1 + 1) db2 = (inr (ps1 ++ ps2), db2).
Proof.
  apply (consecutive_pages_concatenate db2 0 1 1); unfold INT64_MAX; lia.
Defined.

(** X15: a listing of a well-formed store is in strictly increasing id
    order, hence shows no id twice. *)
Theorem listing_is_sorted_by_id
  (db : Database) (skip limit : Z) (ps : list Persona) :
  wf_store db = true ->
  fst (obtener_equipo skip limit db) = inr ps ->
  exists rows : list Row,
    ps = map Persona_of_row rows /\
    increasing_from 0 (map Row_id rows) = true /\
    NoDup (map Persona_id ps).
Proof.
  intros Hwf. rewrite obtener_equipo_run.
  destruct (fits_int64 limit && fits_int64 skip); [|discriminate].
  simpl. intros [= <-].
  pose proof (proj1 (proj1 (wf_store_spec db) Hwf)) as Hinc.
  apply (limit_offset_ids_increasing limit skip) in Hinc.
  eexists. split; [reflexivity|]. split; [exact Hinc|].
  rewrite map_map. cbn [Persona_of_row Persona_id].
  rewrite <- (map_map Row_id Some).
  apply NoDup_map_Some. exact (increasing_from_NoDup 0 _ Hinc).
Qed.

Lemma listing_is_sorted_by_id_witness :
  wf_store db2 = true /\
  exists rows : list Row,
    [mkPersona (Some 1) (text "Ana") 30 (text "Engineer"); mkPersona (Some 2) (text "Luis") 41 (text "Analyst")]
    = map Persona_of_row rows /\
    increasing_from 0 (map Row_id rows) = true /\
    NoDup (map Persona_id
             [mkPersona (Some 1) (text "Ana") 30 (text "Engineer");
              mkPersona (Some 2) (text "Luis") 41 (text "Analyst")]).
Proof.
  split; [reflexivity|].
  apply (listing_is_sorted_by_id db2 0 100); reflexivity.
Defined.

(** ** What holds of every store the service reaches *)

Lemma increasing_from_length (lo s : Z) (l : list Z) :
  increasing_from lo l = true -> (forall i, In i l -> i <= s) -> lo <= s ->
  lo + Z.of_nat (List.length l) <= s.
Proof.
  revert lo. induction l as [|i l IH]; intros lo Hinc Hall Hlo; simpl List.length.
  - lia.
  - simpl in Hinc. apply andb_true_iff in Hinc. destruct Hinc as [Hlt Hinc].
    apply Z.ltb_lt in Hlt.
    assert (Hi : i <= s) by (apply Hall; now left).
    specialize (IH i Hinc (fun j Hj => Hall j (or_intror Hj)) Hi). lia.
Qed.

Lemma set_columns_age_fits (l : list assignment) (r r' : Row) :
  binding_error l = None -> fits_int64 (Row_edad r) = true ->
  set_columns r l = Some r' -> fits_int64 (Row_edad r') = true.
Proof.
  revert r. induction l as [|a l IH]; simpl; intros r Hfit Hr Hset.
  - now injection Hset as <-.
  - destruct (value_error a) eqn:Ha; [discriminate|].
    destruct (set_column r a) as [r1|] eqn:Hcol; [|discriminate].
    apply (IH r1 Hfit); [|exact Hset].
    destruct a as [[s|]|[z|]|[s|]]; simpl in Hcol; try discriminate;
      injection Hcol as <-; simpl; try assumption.
    simpl in Ha. now destruct (fits_int64 z).
Qed.

Lemma update_rows_ages_fit (l : list assignment) (persona_id : Z)
  (rows rows' : list Row) :
  binding_error l = None -> ages_fit rows ->
  update_rows l persona_id rows = Some rows' -> ages_fit rows'.
Proof.
  intros Hfit. revert rows'.
  induction rows as [|r rows IH]; simpl; intros rows' Hages Hup.
  - injection Hup as <-. intros q [].
  - assert (Hr : fits_int64 (Row_edad r) = true) by (apply Hages; now left).
    assert (Hrest : ages_fit rows) by (intros q Hq; apply Hages; now right).
    destruct (Row_id r =? persona_id).
    + destruct (set_columns r l) as [r1|] eqn:Hset; [|discriminate].
      destruct (update_rows l persona_id rows) as [rest|]; [|discriminate].
      injection Hup as <-. intros q [<-|Hq].
      * exact (set_columns_age_fits l r r1 Hfit Hr Hset).
      * now apply (IH rest Hrest eq_refl).
    + destruct (update_rows l persona_id rows) as [rest|]; [|discriminate].
      injection Hup as <-. intros q [<-|Hq]; [exact Hr|].
      now apply (IH rest Hrest eq_refl).
Qed.

Lemma handle_ages_fit (db : Database) (rq : request) :
  ages_fit (personas db) -> ages_fit (personas (handle db rq)).
Proof.
  intros Hages. destruct rq as [c|skip limit|i|i u|i]; simpl.
  - rewrite crear_persona_run.
    destruct (encodable (PersonaCreate_nombre c)); [|exact Hages].
    destruct (fits_int64 (PersonaCreate_edad c)) eqn:Hfit; [|exact Hages].
    destruct (encodable (PersonaCreate_puesto c)); [|exact Hages].
    destruct (exhausted db); [exact Hages|].
    cbn [snd personas]. intros r Hr. apply in_app_or in Hr.
    destruct Hr as [Hr|[<-|[]]]; [now apply Hages | exact Hfit].
  - now rewrite obtener_equipo_run.
  - now rewrite obtener_persona_run.
  - rewrite actualizar_persona_run.
    destruct (fits_int64 i); [|exact Hages].
    destruct (find_row i (personas db)); [|exact Hages].
    destruct (update_data u) as [|a l]; [exact Hages|].
    destruct (binding_error (a :: l)) eqn:Hfit; [exact Hages|].
    destruct (update_rows (a :: l) i (personas db)) as [rows|] eqn:Hup;
      [|exact Hages].
    cbn [snd personas]. exact (update_rows_ages_fit _ _ _ _ Hfit Hages Hup).
  - rewrite eliminar_persona_run.
    destruct (fits_int64 i); [|exact Hages].
    destruct (find_row i (personas db)); [|exact Hages].
    cbn [snd personas]. intros q Hq. apply filter_In in Hq. now apply Hages.
Qed.

(** X16: what every store reached from a fresh table satisfies, whatever
    the requests were: the store is well formed; every id is positive and
    at most the counter, which is a 64-bit value; there are never more
    records than ids handed out; and every stored age is a 64-bit
    value. *)
Theorem reachable_store_invariant (rqs : list request) :
  let db := serve rqs (init_database None) in
  wf_store db = true /\
  (forall r, In r (personas db) -> 0 < Row_id r <= sqlite_sequence db) /\
  Z.of_nat (List.length (personas db)) <= sqlite_sequence db <= INT64_MAX /\
  (forall r, In r (personas db) -> fits_int64 (Row_edad r) = true).
Proof.
  cbv zeta.
  assert (Hwf : wf_store (serve rqs (init_database None)) = true)
    by now apply serve_wf.
  split; [exact Hwf|]. split; [|split].
  - intros r Hr. exact (proj1 (wf_store_id_range _ r Hwf Hr)).
  - pose proof (proj1 (wf_store_spec _) Hwf) as [Hinc [Hall Hrange]].
    split; [|lia].
    pose proof (increasing_from_length 0 _ _ Hinc Hall (proj1 Hrange)) as Hlen.
    unfold ids in Hlen. rewrite length_map in Hlen. lia.
  - unfold serve.
    assert (Hgen : forall db, ages_fit (personas db) ->
                     ages_fit (personas (fold_left handle rqs db))).
    { clear Hwf. induction rqs as [|rq rqs IH]; intros db Hages; [exact Hages|].
      simpl. apply IH. now apply handle_ages_fit. }
    apply Hgen. intros r [].
Qed.
